(** * WebSerialCommunicator: a shallow embedding and its properties

    The development follows [src/Communicators/WebSerialCommunicator.ts].
    The class is glue over the browser's Web Serial, Streams and timer
    interfaces.  The class itself is embedded definition by definition; the
    browser is a parameter (class [Platform]), and the few facts about it on
    which a property depends are collected in [WebSerialContract].

    Conventions:
    - a JavaScript object used as a record of options is a [gmap] from
      property names to values;
    - an [async] method is a computation in the monad [Js]: it threads the
      [World] (the adapter's fields, the host's state and a log of the host
      calls made so far) and ends either normally or by throwing.  A method
      whose promise rejects is a computation that throws;
    - [await e] is one host call that settles: a fulfilled promise yields its
      value, a rejected one throws its reason.  Whatever the host does while
      a method is suspended is part of that call's effect on the host's
      state; the class's own fields are written by its methods only, and
      the callers do not run [connect] and [disconnect] concurrently;
    - the consumer's receive function is foreign code: a call of it is
      logged with its argument and may throw. *)

From Stdlib Require Import ZArith NArith Ascii String List.
From stdpp Require Import base option list strings gmap fin_maps.

Local Open Scope string_scope.

(** ** JavaScript values, errors and completions *)

Inductive JsValue : Type :=
| JsUndefined
| JsNumber (n : Z)
| JsString (s : string).

Inductive JsError : Type :=
| TypeError (msg : string)
| ReferenceError (identifier : string)
| Error (msg : string)
| DOMException (name : string)
| Thrown (v : JsValue).             (* a thrown value that is no error object *)

(** How the evaluation of a statement or the call of a function ends. *)
Inductive Completion (A : Type) : Type :=
| Normal (a : A)
| Throw (e : JsError).
Arguments Normal {A} a.
Arguments Throw {A} e.

(** How a promise settles. *)
Inductive Settled (A : Type) : Type :=
| Fulfilled (a : A)
| Rejected (e : JsError).
Arguments Fulfilled {A} a.
Arguments Rejected {A} e.

(** [a || b] where [a] is a string or [undefined]: the empty string and
    [undefined] are falsy. *)
Definition js_or (a : option string) (b : string) : string :=
  match a with
  | Some EmptyString => b
  | Some s => s
  | None => b
  end.

(** ** [Object.assign]

    [Object.assign(target, source)] writes every own enumerable property of
    [source] onto [target], one assignment per key. *)

Definition Object_assign (target source : gmap string JsValue) : gmap string JsValue :=
  map_fold (λ key value acc, <[key := value]> acc) target source.

(** The object literal of lines 25-30. *)
Definition defaults : gmap string JsValue :=
  {[ "baudRate" := JsNumber 9600;
     "dataBits" := JsNumber 8;
     "stopBits" := JsNumber 1;
     "parity" := JsString "none" ]}.

(** ** [Number.prototype.toString(16)] on a USB product id

    The product id is an unsigned integer; its rendering has lower-case
    digits, no prefix and no leading zeros ([0] is rendered ["0"]). *)

Definition hex_digit (d : N) : ascii :=
  match d with
  | 0 => "0" | 1 => "1" | 2 => "2" | 3 => "3" | 4 => "4" | 5 => "5"
  | 6 => "6" | 7 => "7" | 8 => "8" | 9 => "9" | 10 => "a" | 11 => "b"
  | 12 => "c" | 13 => "d" | 14 => "e" | _ => "f"
  end%N%char.

Fixpoint hex_digits (fuel : nat) (n : N) (acc : string) : string :=
  match fuel with
  | O => acc
  | S fuel' =>
      let acc' := String (hex_digit (n mod 16)) acc in
      if (n / 16 =? 0)%N then acc' else hex_digits fuel' (n / 16) acc'
  end.

Definition toString16 (n : N) : string :=
  hex_digits (S (N.to_nat (N.log2 n))) n "".

(** Reading a lower-case hexadecimal numeral back, most significant digit
    first; used to state that [toString16] renders its argument. *)
Definition hex_digit_value (c : ascii) : N :=
  match c with
  | "0" => 0 | "1" => 1 | "2" => 2 | "3" => 3 | "4" => 4 | "5" => 5
  | "6" => 6 | "7" => 7 | "8" => 8 | "9" => 9 | "a" => 10 | "b" => 11
  | "c" => 12 | "d" => 13 | "e" => 14 | "f" => 15 | _ => 0
  end%char%N.

Fixpoint hex_value_from (s : string) (acc : N) : N :=
  match s with
  | EmptyString => acc
  | String c s' => hex_value_from s' (16 * acc + hex_digit_value c)
  end.

Definition hex_value (s : string) : N := hex_value_from s 0.

(** The value read so far once the digits of [n] have been consumed. *)
Fixpoint hex_prefix (fuel : nat) (n acc : N) : N :=
  match fuel with
  | O => acc
  | S fuel' =>
      if (n / 16 =? 0)%N then 16 * acc + n mod 16
      else 16 * hex_prefix fuel' (n / 16) acc + n mod 16
  end%N.


(** ** The global environment read by the static method

    An identifier of the global scope is either not declared at all, in
    which case evaluating it throws a [ReferenceError], or bound to a value.
    The value of [navigator] is falsy ([None]: [undefined] or [null]) or an
    object, which may or may not have the property [serial]. *)

Inductive Binding (A : Type) : Type :=
| Undeclared
| Bound (v : A).
Arguments Undeclared {A}.
Arguments Bound {A} v.

(** A [SerialPort] object handed out by [navigator.serial.getPorts()]. *)
Definition PortRef : Type := nat.

Record Serial : Type := {
  getPorts : Settled (list PortRef)
}.

Record Navigator : Type := {
  serial : option Serial
}.

Definition Global : Type := Binding (option Navigator).

(** Lines 120-126.
<<
    static async listDevices() {
      if (!navigator || !('serial' in navigator)) { return []; }
      return await navigator.serial.getPorts();
    }
>> *)
Definition listDevices (navigator : Global) : Completion (list PortRef) :=
  match navigator with
  | Undeclared => Throw (ReferenceError "navigator")
  | Bound None => Normal []
  | Bound (Some nav) =>
      match serial nav with
      | None => Normal []
      | Some s =>
          match getPorts s with
          | Fulfilled ports => Normal ports
          | Rejected e => Throw e
          end
      end
  end.

(** ** The host platform

    Everything the class calls but does not define: the [SerialPort]
    object, the two text-codec streams with their reader and writer, the
    promises returned by [pipeTo], and the timers.  A host operation takes
    the host's state and returns its result with the new state.

    [global_SerialPort] is what the identifier [SerialPort] of line 101
    denotes in the global scope: nothing ([Undeclared], as where the port
    object comes from a polyfill or a test and the browser has no Web
    Serial), or the interface object, of which the model keeps whether
    ['forget' in SerialPort.prototype] holds.  [port_has_forget] is whether
    the port object itself has a method [forget] (line 105). *)

(** The streams that are passed to [pipeTo]. *)
Inductive Stream : Type :=
| TextEncoderReadable              (* this.textEncoder.readable *)
| TextDecoderWritable              (* this.textDecoder.writable *)
| PortChannel (id : nat).          (* a stream handed out by the port *)

Definition Promise : Type := nat.
Definition Timer : Type := nat.

(** The result of [reader.read()]: [{ value, done }]. *)
Record ReadResult : Type := {
  value : option string;
  done : bool
}.

Class Platform : Type := {
  Host : Type;
  (* attributes of the SerialPort *)
  port_readable : Host → option Stream;
  port_writable : Host → option Stream;
  port_usbProductId : Host → option N;
  global_SerialPort : Host → Binding bool;
  port_has_forget : Host → bool;
  (* methods of the SerialPort *)
  port_open : gmap string JsValue → Host → Settled unit * Host;
  port_close : Host → Settled unit * Host;
  port_forget : Host → Host;
  (* streams *)
  stream_pipeTo : Stream → option Stream → Host → Promise * Host;
  promise_await : Promise → Host → Settled unit * Host;
  reader_read : Host → Settled ReadResult * Host;
  reader_cancel : Host → Settled unit * Host;
  reader_releaseLock : Host → Completion unit * Host;
  writer_write : string → Host → Settled unit * Host;
  writer_close : Host → Settled unit * Host;
  (* timers *)
  timer_setInterval : Z → Host → Timer * Host;
  timer_clearInterval : Timer → Host → Host
}.

(** The consumer's receive function.  It is foreign code: the model keeps
    its identity and whether it throws on a given chunk.  A receive function
    that calls the adapter's own methods while it runs is outside the
    model: what is proved about a run of the read function is about receive
    functions that return or throw and leave the adapter alone. *)
Record Callback : Type := {
  cb_id : nat;
  cb_throws : string → option JsError
}.

(** The log of calls that leave the class. *)
Inductive Event : Type :=
| EvNewTextEncoderStream
| EvGetWriter
| EvNewTextDecoderStream
| EvGetReader
| EvOpen (options : gmap string JsValue)
| EvPipeTo (source : Stream) (destination : option Stream)
| EvSetInterval (ms : Z)
| EvClearInterval (t : Timer)
| EvRead
| EvCancel
| EvReleaseLock
| EvWrite (data : string)
| EvWriterClose
| EvAwait (p : Promise)
| EvClose
| EvForget
| EvCallback (cb : nat) (data : string).

Definition is_callback (e : Event) : option (nat * string) :=
  match e with
  | EvCallback cb data => Some (cb, data)
  | _ => None
  end.

(** The receive-function calls of a log, in order. *)
Definition callbacks (log : list Event) : list (nat * string) :=
  omap is_callback log.

Definition count_event (p : Event → bool) (log : list Event) : nat :=
  length (filter (λ e, p e = true) log).

Definition is_forget (e : Event) : bool :=
  match e with EvForget => true | _ => false end.
Definition is_open (e : Event) : bool :=
  match e with EvOpen _ => true | _ => false end.

Definition not_null {A : Type} (x : option A) : bool :=
  match x with Some _ => true | None => false end.

(** ** The class *)

Declare Scope js_scope.

Section Communicator.
Context {P : Platform}.

(** The private fields of lines 5-18 that change or are read later, the
    host's state, and the log.  [serialPort], the codec streams, [writer]
    and [reader] are fixed objects of the host, addressed by the host
    operations. *)
Record World : Type := {
  serialPortOptions : gmap string JsValue;
  writableStreamClosed : option Promise;
  readableStreamClosed : option Promise;
  readInterval : option Timer;
  onResiveFunc : option Callback;
  host : Host;
  trace : list Event
}.

Definition set_writableStreamClosed (p : option Promise) (w : World) : World :=
  {| serialPortOptions := serialPortOptions w; writableStreamClosed := p;
     readableStreamClosed := readableStreamClosed w; readInterval := readInterval w;
     onResiveFunc := onResiveFunc w; host := host w; trace := trace w |}.

Definition set_readableStreamClosed (p : option Promise) (w : World) : World :=
  {| serialPortOptions := serialPortOptions w; writableStreamClosed := writableStreamClosed w;
     readableStreamClosed := p; readInterval := readInterval w;
     onResiveFunc := onResiveFunc w; host := host w; trace := trace w |}.

Definition set_readInterval (t : option Timer) (w : World) : World :=
  {| serialPortOptions := serialPortOptions w; writableStreamClosed := writableStreamClosed w;
     readableStreamClosed := readableStreamClosed w; readInterval := t;
     onResiveFunc := onResiveFunc w; host := host w; trace := trace w |}.

Definition set_onResiveFunc (f : option Callback) (w : World) : World :=
  {| serialPortOptions := serialPortOptions w; writableStreamClosed := writableStreamClosed w;
     readableStreamClosed := readableStreamClosed w; readInterval := readInterval w;
     onResiveFunc := f; host := host w; trace := trace w |}.

(** One call into the host: the host's state advances and the call is
    logged. *)
Definition host_step (ev : Event) (h : Host) (w : World) : World :=
  {| serialPortOptions := serialPortOptions w; writableStreamClosed := writableStreamClosed w;
     readableStreamClosed := readableStreamClosed w; readInterval := readInterval w;
     onResiveFunc := onResiveFunc w; host := h; trace := trace w ++ [ev] |}.

(** *** The monad of method bodies *)

Definition Js (A : Type) : Type := World → Completion A * World.

Definition ret {A : Type} (a : A) : Js A := λ w, (Normal a, w).

Definition bind {A B : Type} (m : Js A) (k : A → Js B) : Js B := λ w,
  match m w with
  | (Normal a, w') => k a w'
  | (Throw e, w') => (Throw e, w')
  end.

(** [return a;] *)
Definition return_ {A : Type} (a : A) : Js A := ret a.

Definition throw {A : Type} (e : JsError) : Js A := λ w, (Throw e, w).

(** [try { body } catch (error) { handler }] *)
Definition try_catch {A : Type} (body : Js A) (handler : JsError → Js A) : Js A := λ w,
  match body w with
  | (Normal a, w') => (Normal a, w')
  | (Throw e, w') => handler e w'
  end.

Definition gets {A : Type} (f : World → A) : Js A := λ w, (Normal (f w), w).

Definition modify (f : World → World) : Js unit := λ w, (Normal tt, f w).

(** A synchronous host call that returns a value. *)
Definition call {A : Type} (ev : Event) (op : Host → A * Host) : Js A := λ w,
  let '(a, h) := op (host w) in (Normal a, host_step ev h w).

(** A synchronous host call that may throw. *)
Definition call_throwing {A : Type} (ev : Event) (op : Host → Completion A * Host) : Js A := λ w,
  let '(c, h) := op (host w) in (c, host_step ev h w).

(** [await op()] *)
Definition await {A : Type} (ev : Event) (op : Host → Settled A * Host) : Js A := λ w,
  let '(s, h) := op (host w) in
  (match s with Fulfilled a => Normal a | Rejected e => Throw e end, host_step ev h w).

(** [await p] where [p] is a promise or [null]; awaiting [null] yields at
    once. *)
Definition await_nullable (p : option Promise) : Js unit :=
  match p with
  | Some q => await (EvAwait q) (promise_await q)
  | None => return_ tt
  end.

(** Calling the consumer's function. *)
Definition invoke (f : Callback) (data : string) : Js unit := λ w,
  let w' := host_step (EvCallback (cb_id f) data) (host w) w in
  match cb_throws f data with
  | Some e => (Throw e, w')
  | None => (Normal tt, w')
  end.

(** *** The methods *)

Notation "x ← y ; z" := (bind y (λ x, z))
  (at level 20, y at level 100, z at level 200, only parsing) : js_scope.
Notation "x ;; z" := (bind x (λ _, z))
  (at level 100, z at level 200, only parsing, right associativity) : js_scope.
Local Open Scope js_scope.

(** Lines 20-40.  [port] is the host in the state in which the caller
    hands the port over; an omitted [options] is [{}]. *)
Definition constructor (port : Host) (options : option (gmap string JsValue)) : World :=
  {| serialPortOptions := Object_assign defaults (default ∅ options);
     writableStreamClosed := None;
     readableStreamClosed := None;
     readInterval := None;
     onResiveFunc := None;
     host := port;
     trace := [EvNewTextEncoderStream; EvGetWriter; EvNewTextDecoderStream; EvGetReader] |}.

(** Lines 42-44. *)
Definition deviceIndentifier (w : World) : string :=
  "webserial-" ++ js_or (toString16 <$> port_usbProductId (host w)) "unknown".

(** Lines 46-48. *)
Definition isConnected (w : World) : bool :=
  not_null (port_readable (host w)) && not_null (port_writable (host w)).

(** Lines 60-74: one run of the function given to [setInterval]. *)
Definition readData : Js unit :=
  try_catch
    (r ← await EvRead reader_read;
     f ← gets onResiveFunc;
     match f with
     | Some func => invoke func (js_or (value r) "")
     | None => return_ tt
     end;;
     if done r then call_throwing EvReleaseLock reader_releaseLock else return_ tt)
    (λ _error, return_ tt).

(** [n] firings of the timer started at line 76. *)
Fixpoint poll (n : nat) : Js unit :=
  match n with
  | O => return_ tt
  | S n' => readData;; poll n'
  end.

(** Lines 50-77. *)
Definition connect : Js unit :=
  connected ← gets isConnected;
  if connected then return_ tt else
  options ← gets serialPortOptions;
  await (EvOpen options) (port_open options);;
  writable ← gets (λ w, port_writable (host w));
  p ← call (EvPipeTo TextEncoderReadable writable)
           (stream_pipeTo TextEncoderReadable writable);
  modify (set_writableStreamClosed (Some p));;
  readable ← gets (λ w, port_readable (host w));
  match readable with
  | None => throw (TypeError "Cannot read properties of null (reading 'pipeTo')")
  | Some source =>
      q ← call (EvPipeTo source (Some TextDecoderWritable))
               (stream_pipeTo source (Some TextDecoderWritable));
      modify (set_readableStreamClosed (Some q));;
      t ← call (EvSetInterval 10) (timer_setInterval 10);
      modify (set_readInterval (Some t))
  end.

(** Lines 79-98. *)
Definition disconnect : Js unit :=
  connected ← gets isConnected;
  if negb connected then return_ tt else
  interval ← gets readInterval;
  match interval with
  | Some t =>
      call (EvClearInterval t) (λ h, (tt, timer_clearInterval t h));;
      modify (set_readInterval None)
  | None => return_ tt
  end;;
  await EvCancel reader_cancel;;
  p ← gets readableStreamClosed;
  await_nullable p;;
  modify (set_readableStreamClosed None);;
  await EvWriterClose writer_close;;
  q ← gets writableStreamClosed;
  await_nullable q;;
  modify (set_writableStreamClosed None);;
  await EvClose port_close.

(** Lines 100-106.  Evaluating [SerialPort] throws where the identifier is
    not declared; calling [forget] throws where the port has no such
    method.  The promise returned by [forget()] is dropped. *)
Definition revokeConnection : Js unit :=
  global ← gets (λ w, global_SerialPort (host w));
  match global with
  | Undeclared => throw (ReferenceError "SerialPort")
  | Bound in_prototype =>
      if negb in_prototype then
        throw (Error "Cannot revoke access of this port serial. This function is not supported.")
      else
        callable ← gets (λ w, port_has_forget (host w));
        if callable then call EvForget (λ h, (tt, port_forget h))
        else throw (TypeError "this.serialPort.forget is not a function")
  end.

(** Lines 108-110. *)
Definition write (data : string) : Js unit :=
  await (EvWrite data) (writer_write data).

(** Lines 112-114. *)
Definition setOnResiveFunc (func : Callback) : Js unit :=
  modify (set_onResiveFunc (Some func)).

End Communicator.

(** ** What the properties rely on from the host

    Four facts of the Web Serial, Streams and timer interfaces:
    - once [open()] has fulfilled, the port hands out both channels;
    - once [close()] has fulfilled, [readable] and [writable] are [null];
    - [pipeTo] locks its two streams and leaves the port's attributes alone;
    - so does [setInterval]. *)
Class WebSerialContract (P : Platform) : Prop := {
  open_exposes_channels : ∀ options h h',
    port_open options h = (Fulfilled tt, h') →
    not_null (port_readable h') = true ∧ not_null (port_writable h') = true;
  close_withdraws_channels : ∀ h h',
    port_close h = (Fulfilled tt, h') →
    port_readable h' = None ∧ port_writable h' = None;
  pipeTo_keeps_channels : ∀ source destination h,
    port_readable (stream_pipeTo source destination h).2 = port_readable h ∧
    port_writable (stream_pipeTo source destination h).2 = port_writable h;
  setInterval_keeps_channels : ∀ ms h,
    port_readable (timer_setInterval ms h).2 = port_readable h ∧
    port_writable (timer_setInterval ms h).2 = port_writable h
}.

(** ** A reference host

    A small deterministic host on which the methods can be run: a port that
    is open or closed, a script of the results of the successive reads, and
    a counter for fresh promises and timers.  As with the streams of a
    browser, cancelling the reader errors the decoder's writable side, so
    that the promise of the pipe into the decoder rejects from then on, with
    the reason of the cancellation, which is [undefined]. *)

Record RefHost : Type := {
  ref_opened : bool;
  ref_forget : bool;
  ref_productId : option N;
  ref_inbound : list (Settled ReadResult);
  ref_fresh : nat;
  ref_cancelled : bool;
  ref_inbound_pipe : option Promise
}.

Definition ref_set_opened (b : bool) (h : RefHost) : RefHost :=
  {| ref_opened := b; ref_forget := ref_forget h; ref_productId := ref_productId h;
     ref_inbound := ref_inbound h; ref_fresh := ref_fresh h;
     ref_cancelled := ref_cancelled h; ref_inbound_pipe := ref_inbound_pipe h |}.

Definition ref_set_inbound (l : list (Settled ReadResult)) (h : RefHost) : RefHost :=
  {| ref_opened := ref_opened h; ref_forget := ref_forget h; ref_productId := ref_productId h;
     ref_inbound := l; ref_fresh := ref_fresh h;
     ref_cancelled := ref_cancelled h; ref_inbound_pipe := ref_inbound_pipe h |}.

Definition ref_next (h : RefHost) : nat * RefHost :=
  (ref_fresh h,
   {| ref_opened := ref_opened h; ref_forget := ref_forget h; ref_productId := ref_productId h;
      ref_inbound := ref_inbound h; ref_fresh := S (ref_fresh h);
      ref_cancelled := ref_cancelled h; ref_inbound_pipe := ref_inbound_pipe h |}).

(** [source.pipeTo(destination)]: a fresh promise; the pipe into the decoder
    is remembered. *)
Definition ref_pipeTo (destination : option Stream) (h : RefHost) : Promise * RefHost :=
  (ref_fresh h,
   {| ref_opened := ref_opened h; ref_forget := ref_forget h; ref_productId := ref_productId h;
      ref_inbound := ref_inbound h; ref_fresh := S (ref_fresh h);
      ref_cancelled := ref_cancelled h;
      ref_inbound_pipe :=
        match destination with
        | Some TextDecoderWritable => Some (ref_fresh h)
        | _ => ref_inbound_pipe h
        end |}).

(** [reader.cancel()]: what was queued is dropped and the decoder is
    errored. *)
Definition ref_cancel (h : RefHost) : Settled unit * RefHost :=
  (Fulfilled tt,
   {| ref_opened := ref_opened h; ref_forget := ref_forget h; ref_productId := ref_productId h;
      ref_inbound := []; ref_fresh := ref_fresh h;
      ref_cancelled := true; ref_inbound_pipe := ref_inbound_pipe h |}).

(** [await p] for a pipe promise [p]. *)
Definition ref_await (p : Promise) (h : RefHost) : Settled unit * RefHost :=
  if ref_cancelled h && bool_decide (ref_inbound_pipe h = Some p)
  then (Rejected (Thrown JsUndefined), h)
  else (Fulfilled tt, h).

Definition ref_open (h : RefHost) : Settled unit * RefHost :=
  if ref_opened h then (Rejected (DOMException "InvalidStateError"), h)
  else (Fulfilled tt, ref_set_opened true h).

Definition ref_close (h : RefHost) : Settled unit * RefHost :=
  if ref_opened h then (Fulfilled tt, ref_set_opened false h)
  else (Rejected (DOMException "InvalidStateError"), h).

Definition ref_read (h : RefHost) : Settled ReadResult * RefHost :=
  match ref_inbound h with
  | r :: rest => (r, ref_set_inbound rest h)
  | [] => (Fulfilled {| value := None; done := true |}, h)
  end.

(** The host, with three switches: whether the global scope declares
    [SerialPort], whether [open()] rejects, whether [reader.cancel()]
    rejects. *)
Definition ref_platform (declared open_fails cancel_fails : bool) : Platform := {|
  Host := RefHost;
  port_readable h := if ref_opened h then Some (PortChannel 0) else None;
  port_writable h := if ref_opened h then Some (PortChannel 1) else None;
  port_usbProductId := ref_productId;
  global_SerialPort h := if declared then Bound (ref_forget h) else Undeclared;
  port_has_forget := ref_forget;
  port_open _ h :=
    if open_fails then (Rejected (DOMException "NetworkError"), h) else ref_open h;
  port_close := ref_close;
  port_forget h := h;
  stream_pipeTo _ := ref_pipeTo;
  promise_await := ref_await;
  reader_read := ref_read;
  reader_cancel h :=
    if cancel_fails then (Rejected (TypeError "Releasing Default reader"), h)
    else ref_cancel h;
  reader_releaseLock h := (Normal tt, h);
  writer_write _ h := (Fulfilled tt, h);
  writer_close h := (Fulfilled tt, h);
  timer_setInterval _ := ref_next;
  timer_clearInterval _ h := h
|}.

#[export] Instance RefPlatform : Platform := ref_platform true false false.

(** A closed port of an Arduino-like device ([usbProductId] 0x2341) whose
    decoder will deliver ["OK\r\n"] and then a failing read. *)
Definition chunk (s : string) : Settled ReadResult :=
  Fulfilled {| value := Some s; done := false |}.

Definition CRLF : string := String "013" (String "010" "").

Definition ref_port : RefHost :=
  {| ref_opened := false; ref_forget := true; ref_productId := Some 0x2341%N;
     ref_inbound := [chunk ("OK" ++ CRLF); Rejected (DOMException "NetworkError")];
     ref_fresh := 0; ref_cancelled := false; ref_inbound_pipe := None |}.

(** The same port on a browser without [SerialPort.prototype.forget]. *)
Definition ref_port_no_forget : RefHost :=
  {| ref_opened := false; ref_forget := false; ref_productId := None;
     ref_inbound := []; ref_fresh := 0; ref_cancelled := false; ref_inbound_pipe := None |}.

Definition ref_adapter : World := constructor ref_port None.

Definition ref_callback : Callback := {| cb_id := 1; cb_throws := λ _, None |}.
Definition ref_callback' : Callback := {| cb_id := 2; cb_throws := λ _, Some (Error "consumer") |}.

(** Running a method for its effect on the world. *)
Definition exec {P : Platform} {A : Type} (m : Js A) (w : World) : World := (m w).2.

(** The scenario of the specification's section 8, run on the reference
    host: construct without options, connect, register a function, receive
    ["OK\r\n"], write ["AT\r\n"], and then disconnect. *)
Definition scenario_connected : World :=
  let w1 := exec connect ref_adapter in
  let w2 := exec (setOnResiveFunc ref_callback) w1 in
  let w3 := exec readData w2 in
  exec (write ("AT" ++ CRLF)) w3.

Definition scenario : World := exec disconnect scenario_connected.

(** ** Further vocabulary for the log, and hosts that fail *)

Definition is_setInterval (e : Event) : bool :=
  match e with EvSetInterval _ => true | _ => false end.
Definition is_clearInterval (e : Event) : bool :=
  match e with EvClearInterval _ => true | _ => false end.
Definition is_releaseLock (e : Event) : bool :=
  match e with EvReleaseLock => true | _ => false end.
Definition is_read (e : Event) : bool :=
  match e with EvRead => true | _ => false end.
Definition is_close (e : Event) : bool :=
  match e with EvClose => true | _ => false end.

(** The call made with a field that is an object or [null]: none when the
    field is [null]. *)
Definition nullable {A : Type} (ev : A → Event) (field : option A) : list Event :=
  match field with
  | Some a => [ev a]
  | None => []
  end.

(** The port changes state outside the adapter's control (the device is
    unplugged, another holder closes it): the host's state is replaced; the
    adapter's fields and the log stay. *)
Definition host_changes {P : Platform} (h : Host) (w : World) : World :=
  {| serialPortOptions := serialPortOptions w; writableStreamClosed := writableStreamClosed w;
     readableStreamClosed := readableStreamClosed w; readInterval := readInterval w;
     onResiveFunc := onResiveFunc w; host := h; trace := trace w |}.

(** Whether the receive function registered in [w], if any, throws on the
    argument that a read result [r] makes the read function pass. *)
Definition callback_throws {P : Platform} (w : World) (r : ReadResult) : bool :=
  match onResiveFunc w with
  | Some func => not_null (cb_throws func (js_or (value r) ""))
  | None => false
  end.

(** The reference host, except that [open()] or [reader.cancel()] can be
    made to reject. *)
Definition FaultyPlatform (open_fails cancel_fails : bool) : Platform :=
  ref_platform true open_fails cancel_fails.

(** The reference host where the global scope does not declare
    [SerialPort]: the port object, which has [forget], comes from a
    polyfill. *)
Definition PolyfillPlatform : Platform := ref_platform false false false.

Definition polyfill_adapter : @World PolyfillPlatform :=
  constructor (P := PolyfillPlatform) ref_port None.

(** A port that is already open when the adapter is built. *)
Definition ref_port_open : RefHost := ref_set_opened true ref_port.

(** An adapter built on it: connected from the start, and never piped. *)
Definition open_adapter : World := constructor (P := RefPlatform) ref_port_open None.

(** What can happen to an adapter: its consumer calls a method, the timer
    fires, or the port changes state on its own. *)
Inductive Step {P : Platform} : Type :=
| DoConnect
| DoDisconnect
| DoWrite (data : string)
| DoRevokeConnection
| DoSetOnResiveFunc (func : Callback)
| TimerFires
| PortChanges (h : Host).

Definition step {P : Platform} (s : Step) (w : World) : World :=
  match s with
  | DoConnect => exec connect w
  | DoDisconnect => exec disconnect w
  | DoWrite data => exec (write data) w
  | DoRevokeConnection => exec revokeConnection w
  | DoSetOnResiveFunc func => exec (setOnResiveFunc func) w
  | TimerFires => exec readData w
  | PortChanges h => host_changes h w
  end.

(** A history of the adapter; a call that throws is followed by the next
    step all the same. *)
Definition session {P : Platform} (steps : list Step) (w : World) : World :=
  fold_left (λ w s, step s w) steps w.

(** The function passed to the last [setOnResiveFunc] of a history. *)
Definition last_registered {P : Platform} (steps : list Step)
    (before : option Callback) : option Callback :=
  fold_left (λ f s, match s with DoSetOnResiveFunc g => Some g | _ => f end) steps before.

(** Timers started and not cleared cover the timer stored, if any. *)
Definition timer_balance {P : Platform} (w : World) : Prop :=
  (count_event is_clearInterval (trace w) + (if not_null (readInterval w) then 1 else 0)
   ≤ count_event is_setInterval (trace w))%nat.

(** The decoder hands out the chunks [chunks], one per read and none of them
    the last, taking the host from [h] to [h']. *)
Fixpoint serves {P : Platform} (chunks : list string) (h h' : Host) : Prop :=
  match chunks with
  | [] => h' = h
  | s :: rest =>
      ∃ h1, reader_read h = (Fulfilled {| value := Some s; done := false |}, h1)
            ∧ serves rest h1 h'
  end.

(** The host as [disconnect()] finds it when it cancels the reader: after
    the timer stored in [w], if any, has been cleared. *)
Definition cleared_host {P : Platform} (w : World) : Host :=
  match readInterval w with
  | Some t => timer_clearInterval t (host w)
  | None => host w
  end.

(** A port whose decoder will deliver three chunks, and a receive function
    that throws on the second of them. *)
Definition ref_port_three : RefHost :=
  ref_set_inbound [chunk "A"; chunk "B"; chunk "C"] ref_port.

Definition ref_callback_b : Callback :=
  {| cb_id := 3;
     cb_throws := λ s, if String.eqb s "B" then Some (Error "consumer") else None |}.

Definition three_adapter : World :=
  exec (setOnResiveFunc ref_callback_b)
    (exec connect (constructor (P := RefPlatform) ref_port_three None)).

(** Adapters for the hosts that fail. *)
Definition busy_adapter : @World (FaultyPlatform true false) :=
  constructor (P := FaultyPlatform true false) ref_port None.
Definition stuck_adapter : @World (FaultyPlatform false true) :=
  exec connect (constructor (P := FaultyPlatform false true) ref_port None).

(** * Properties *)

(** ** The pure parts *)

Lemma Object_assign_lookup (target source : gmap string JsValue) (key : string) :
  Object_assign target source !! key =
  match source !! key with
  | Some v => Some v
  | None => target !! key
  end.
Proof.
  unfold Object_assign.
  revert key.
  apply (map_fold_weak_ind
           (λ r m, ∀ key : string,
                r !! key = match m !! key with Some v => Some v | None => target !! key end)).
  - intros key. by rewrite lookup_empty.
  - intros i x m r Hfresh IH key.
    destruct (decide (i = key)) as [->|Hne].
    + by rewrite !lookup_insert_eq.
    + rewrite !lookup_insert_ne by done. apply IH.
Qed.

Example Object_assign_baud :
  Object_assign defaults {[ "baudRate" := JsNumber 115200 ]} =
  {[ "baudRate" := JsNumber 115200;
     "dataBits" := JsNumber 8;
     "stopBits" := JsNumber 1;
     "parity" := JsString "none" ]}.
Proof. reflexivity. Qed.

Example toString16_ff : toString16 255 = "ff".
Proof. reflexivity. Qed.
Example toString16_0 : toString16 0 = "0".
Proof. reflexivity. Qed.
Example toString16_2341 : toString16 0x2341 = "2341".
Proof. reflexivity. Qed.

Lemma js_or_empty (a : option string) : js_or a "" = default "" a.
Proof. by destruct a as [[|c s]|]. Qed.

Lemma hex_digits_nonempty (fuel : nat) (n : N) (acc : string) :
  acc ≠ "" → hex_digits fuel n acc ≠ "".
Proof.
  revert n acc. induction fuel as [|fuel IH]; intros n acc Hacc; simpl; [done|].
  destruct (n / 16 =? 0)%N; [done|]. by apply IH.
Qed.

Lemma toString16_nonempty (n : N) : toString16 n ≠ "".
Proof.
  unfold toString16. simpl. destruct (n / 16 =? 0)%N; [done|].
  by apply hex_digits_nonempty.
Qed.

Lemma js_or_toString16 (n : N) (b : string) : js_or (Some (toString16 n)) b = toString16 n.
Proof.
  pose proof (toString16_nonempty n) as Hn.
  unfold js_or. by destruct (toString16 n).
Qed.

Lemma hex_digit_value_hex_digit (d : N) : (d < 16)%N → hex_digit_value (hex_digit d) = d.
Proof.
  intros Hd.
  assert (Hcases : Forall (λ k, d = k → hex_digit_value (hex_digit d) = d)
                     (N.of_nat <$> seq 0 16)).
  { repeat constructor; by intros ->. }
  rewrite Forall_forall in Hcases. apply (Hcases d); [|done].
  apply list_elem_of_fmap. exists (N.to_nat d). split; [lia|].
  apply list_elem_of_In, in_seq. lia.
Qed.

Lemma hex_value_from_digits (fuel : nat) (n : N) (rest : string) (acc : N) :
  hex_value_from (hex_digits fuel n rest) acc = hex_value_from rest (hex_prefix fuel n acc).
Proof.
  revert n rest. induction fuel as [|fuel IH]; intros n rest; simpl; [done|].
  assert (Hd : hex_digit_value (hex_digit (n mod 16)) = (n mod 16)%N).
  { apply hex_digit_value_hex_digit. apply N.mod_lt. done. }
  destruct (n / 16 =? 0)%N.
  - simpl. by rewrite Hd.
  - rewrite IH. simpl. by rewrite Hd.
Qed.

Lemma hex_prefix_value (fuel : nat) (n : N) :
  (n < 16 ^ N.of_nat fuel)%N → hex_prefix fuel n 0 = n.
Proof.
  revert n. induction fuel as [|fuel IH]; intros n Hn.
  - simpl in *. lia.
  - cbn [hex_prefix].
    pose proof (N.div_mod n 16 ltac:(done)) as Hdm.
    destruct (n / 16 =? 0)%N eqn:Hq.
    + apply N.eqb_eq in Hq. lia.
    + rewrite IH; [lia|].
      rewrite Nat2N.inj_succ, N.pow_succ_r' in Hn.
      apply N.Div0.div_lt_upper_bound. lia.
Qed.

Lemma toString16_value (n : N) : hex_value (toString16 n) = n.
Proof.
  unfold hex_value, toString16. rewrite hex_value_from_digits.
  change (hex_prefix (S (N.to_nat (N.log2 n))) n 0 = n).
  apply hex_prefix_value.
  rewrite Nat2N.inj_succ, N2Nat.id.
  destruct (decide (n = 0%N)) as [->|Hn]; [done|].
  pose proof (N.log2_spec n ltac:(lia)) as [_ Hlt].
  eapply N.lt_le_trans; [exact Hlt|].
  apply N.pow_le_mono_l. lia.
Qed.

(** ** The methods, on any host *)

Section Properties.
Context {P : Platform}.

Ltac js_unfold :=
  unfold bind, ret, return_, throw, gets, modify, call, call_throwing, await,
    await_nullable, try_catch, invoke, exec in *.

Lemma isConnected_true (w : World) :
  isConnected w = true ↔ port_readable (host w) ≠ None ∧ port_writable (host w) ≠ None.
Proof.
  unfold isConnected, not_null.
  destruct (port_readable (host w)), (port_writable (host w)); simpl;
    split; try done; intros [? ?]; done.
Qed.

Lemma connect_connected (w : World) :
  isConnected w = true → connect w = (Normal tt, w).
Proof. intros Hc. unfold connect. js_unfold. by rewrite Hc. Qed.

Lemma disconnect_disconnected (w : World) :
  isConnected w = false → disconnect w = (Normal tt, w).
Proof. intros Hc. unfold disconnect. js_unfold. by rewrite Hc. Qed.

(** Inversion of a normal completion, one lemma per combinator. *)

Lemma bind_normal {A B : Type} (m : Js A) (k : A → Js B) (w w' : World) (b : B) :
  bind m k w = (Normal b, w') →
  ∃ a w1, m w = (Normal a, w1) ∧ k a w1 = (Normal b, w').
Proof.
  unfold bind. destruct (m w) as [[a|e] w1]; [|done]. intros Hk. by exists a, w1.
Qed.

Lemma gets_normal {A : Type} (f : World → A) (w w' : World) (a : A) :
  gets f w = (Normal a, w') → a = f w ∧ w' = w.
Proof. by intros [= <- <-]. Qed.

Lemma modify_normal (f : World → World) (w w' : World) (u : unit) :
  modify f w = (Normal u, w') → w' = f w.
Proof. by intros [= <-]. Qed.

Lemma return_normal {A : Type} (a b : A) (w w' : World) :
  return_ a w = (Normal b, w') → b = a ∧ w' = w.
Proof. by intros [= <- <-]. Qed.

Lemma call_normal {A : Type} (ev : Event) (op : Host → A * Host) (w w' : World) (a : A) :
  call ev op w = (Normal a, w') →
  a = (op (host w)).1 ∧ w' = host_step ev (op (host w)).2 w.
Proof. unfold call. destruct (op (host w)) as [a0 h]. by intros [= <- <-]. Qed.

Lemma await_normal {A : Type} (ev : Event) (op : Host → Settled A * Host)
    (w w' : World) (a : A) :
  await ev op w = (Normal a, w') →
  ∃ h, op (host w) = (Fulfilled a, h) ∧ w' = host_step ev h w.
Proof.
  unfold await. destruct (op (host w)) as [[a0|e] h]; [|done].
  intros [= <- <-]. by exists h.
Qed.

Lemma connect_success `{!WebSerialContract P} (w w' : World) :
  connect w = (Normal tt, w') → isConnected w' = true.
Proof.
  unfold connect. intros H.
  apply bind_normal in H as (c & w0 & [-> ->]%gets_normal & H).
  destruct (isConnected w) eqn:Hc.
  { by apply return_normal in H as [_ ->]. }
  apply bind_normal in H as (o & w0 & [-> ->]%gets_normal & H).
  apply bind_normal in H as ([] & w1 & (h1 & Hopen & ->)%await_normal & H).
  apply bind_normal in H as (wr & w0 & [-> ->]%gets_normal & H).
  apply bind_normal in H as (p & w2 & [-> ->]%call_normal & H).
  apply bind_normal in H as ([] & w3 & ->%modify_normal & H).
  apply bind_normal in H as (rd & w0 & [-> ->]%gets_normal & H).
  cbn in H.
  destruct (port_readable _) as [source|] eqn:Hrd in H; [|done].
  apply bind_normal in H as (q & w4 & [-> ->]%call_normal & H).
  apply bind_normal in H as ([] & w5 & ->%modify_normal & H).
  apply bind_normal in H as (t & w6 & [-> ->]%call_normal & H).
  apply modify_normal in H as ->.
  apply open_exposes_channels in Hopen as [Hr Hw].
  unfold isConnected. cbn.
  destruct (setInterval_keeps_channels 10
    (stream_pipeTo source (Some TextDecoderWritable)
       (stream_pipeTo TextEncoderReadable (port_writable h1) h1).2).2) as [-> ->].
  destruct (pipeTo_keeps_channels source (Some TextDecoderWritable)
       (stream_pipeTo TextEncoderReadable (port_writable h1) h1).2) as [-> ->].
  destruct (pipeTo_keeps_channels TextEncoderReadable (port_writable h1) h1) as [-> ->].
  by rewrite Hr, Hw.
Qed.

Lemma disconnect_success `{!WebSerialContract P} (w w' : World) :
  disconnect w = (Normal tt, w') → isConnected w' = false.
Proof.
  unfold disconnect. intros H.
  apply bind_normal in H as (c & w0 & [-> ->]%gets_normal & H).
  destruct (isConnected w) eqn:Hc; simpl negb in H; cbv iota in H.
  2:{ by apply return_normal in H as [_ ->]. }
  repeat (apply bind_normal in H as (? & ? & _ & H)).
  apply await_normal in H as (h & Hclose & ->).
  apply close_withdraws_channels in Hclose as [Hr Hw].
  unfold isConnected. cbn. by rewrite Hr.
Qed.

Lemma count_event_app (p : Event → bool) (l1 l2 : list Event) :
  count_event p (l1 ++ l2)%list = count_event p l1 + count_event p l2.
Proof. unfold count_event. by rewrite filter_app, length_app. Qed.

Lemma callbacks_app (l1 l2 : list Event) :
  callbacks (l1 ++ l2)%list = (callbacks l1 ++ callbacks l2)%list.
Proof. unfold callbacks. apply omap_app. Qed.

(** The log of a [connect] that had to open the port. *)
Lemma connect_trace (w w' : World) :
  isConnected w = false → connect w = (Normal tt, w') →
  ∃ writable source,
    trace w' = (trace w ++
      [EvOpen (serialPortOptions w);
       EvPipeTo TextEncoderReadable writable;
       EvPipeTo source (Some TextDecoderWritable);
       EvSetInterval 10])%list.
Proof.
  unfold connect. intros Hc H.
  apply bind_normal in H as (c & w0 & [-> ->]%gets_normal & H).
  rewrite Hc in H.
  apply bind_normal in H as (o & w0 & [-> ->]%gets_normal & H).
  apply bind_normal in H as ([] & w1 & (h1 & Hopen & ->)%await_normal & H).
  apply bind_normal in H as (wr & w0 & [-> ->]%gets_normal & H).
  apply bind_normal in H as (p & w2 & [-> ->]%call_normal & H).
  apply bind_normal in H as ([] & w3 & ->%modify_normal & H).
  apply bind_normal in H as (rd & w0 & [-> ->]%gets_normal & H).
  cbn in H.
  destruct (port_readable _) as [source|] eqn:Hrd in H; [|done].
  apply bind_normal in H as (q & w4 & [-> ->]%call_normal & H).
  apply bind_normal in H as ([] & w5 & ->%modify_normal & H).
  apply bind_normal in H as (t & w6 & [-> ->]%call_normal & H).
  apply modify_normal in H as ->.
  exists (port_writable h1), source. cbn. by rewrite <- !app_assoc.
Qed.

(** C1. [isConnected] is true exactly when the port's [readable] and
    [writable] are both non-null; hence it is true after every [connect()]
    that completed and false after every [disconnect()] that completed. *)
Theorem isConnected_spec `{!WebSerialContract P} (w : World) :
  (isConnected w = true ↔
     port_readable (host w) ≠ None ∧ port_writable (host w) ≠ None)
  ∧ (∀ w', connect w = (Normal tt, w') → isConnected w' = true)
  ∧ (∀ w', disconnect w = (Normal tt, w') → isConnected w' = false).
Proof.
  split; [apply isConnected_true|].
  split; intros w'; [apply connect_success | apply disconnect_success].
Qed.

(** C2. The stored configuration is the defaults overridden key by key by
    the supplied options, the supplied value winning; supplying only
    [baudRate: 115200] gives 115200/8/1/none, and supplying nothing gives
    the defaults. *)
Theorem constructor_options (port : Host) (options : gmap string JsValue) (key : string) :
  serialPortOptions (constructor port (Some options)) !! key =
    match options !! key with
    | Some v => Some v
    | None => defaults !! key
    end
  ∧ serialPortOptions (constructor port (Some {[ "baudRate" := JsNumber 115200 ]})) =
      {[ "baudRate" := JsNumber 115200; "dataBits" := JsNumber 8;
         "stopBits" := JsNumber 1; "parity" := JsString "none" ]}
  ∧ serialPortOptions (constructor port None) = defaults.
Proof.
  split; [apply Object_assign_lookup|].
  split; [apply Object_assign_baud|].
  apply map_eq. intros k. simpl. rewrite Object_assign_lookup. by rewrite lookup_empty.
Qed.

(** C3. [connect()] on a connected adapter changes nothing: no host call is
    made and no field is written.  So the second of two consecutive calls is
    void, and the pair opens the port as often as the first call alone: once
    if the adapter was disconnected, not at all otherwise. *)
Theorem connect_noop `{!WebSerialContract P} (w : World) :
  (isConnected w = true → connect w = (Normal tt, w))
  ∧ (∀ w1, connect w = (Normal tt, w1) →
       connect w1 = (Normal tt, w1) ∧
       count_event is_open (trace (exec connect w1)) =
         count_event is_open (trace w) + (if isConnected w then 0 else 1)).
Proof.
  split; [apply connect_connected|].
  intros w1 H1.
  pose proof (connect_success _ _ H1) as Hc1.
  pose proof (connect_connected _ Hc1) as H2.
  split; [done|]. unfold exec. rewrite H2. simpl.
  destruct (isConnected w) eqn:Hc.
  - rewrite (connect_connected _ Hc) in H1. injection H1 as <-. lia.
  - destruct (connect_trace _ _ Hc H1) as (wr & rd & ->).
    by rewrite count_event_app.
Qed.

(** C4. [disconnect()] on an adapter that is not connected returns at once:
    it does not throw, makes no host call and writes no field.  This is the
    case of a fresh adapter whose port is closed. *)
Theorem disconnect_noop (w : World) :
  (isConnected w = false → disconnect w = (Normal tt, w))
  ∧ (∀ port options,
       w = constructor port options →
       port_readable port = None ∨ port_writable port = None →
       disconnect w = (Normal tt, w)).
Proof.
  split; [apply disconnect_disconnected|].
  intros port options -> Hclosed. apply disconnect_disconnected.
  unfold isConnected. simpl.
  destruct Hclosed as [-> | ->]; [done|]. apply andb_false_r.
Qed.

(** C5. Once [setOnResiveFunc(func)] has run, [func] is the registered
    function whatever was registered before, and a run of the read function
    whose read yields a chunk calls [func] exactly once, with the chunk's
    text, or with the empty string when the read carries no value. *)
Theorem receive_callback (func : Callback) (w : World) (r : ReadResult) (h : Host) :
  reader_read (host w) = (Fulfilled r, h) →
  (setOnResiveFunc func w).1 = Normal tt
  ∧ onResiveFunc (exec (setOnResiveFunc func) w) = Some func
  ∧ callbacks (trace (exec readData (exec (setOnResiveFunc func) w))) =
      (callbacks (trace w) ++ [(cb_id func, default "" (value r))])%list.
Proof.
  intros Hread. split; [done|]. split; [done|].
  unfold exec, readData, setOnResiveFunc, try_catch, bind, await, gets, modify, invoke.
  cbn. rewrite Hread. cbn. rewrite js_or_empty.
  unfold callbacks.
  destruct (cb_throws func _); cbn.
  - by rewrite !omap_app, app_nil_r.
  - destruct (done r); cbn.
    + unfold call_throwing. cbn.
      destruct (reader_releaseLock h) as [[[]|e] h']; cbn;
        by rewrite !omap_app, !app_nil_r.
    + by rewrite !omap_app, app_nil_r.
Qed.

(** A run whose read yields a chunk and does not end the stream. *)
Lemma readData_chunk (func : Callback) (s : string) (w : World) (h : Host) :
  onResiveFunc w = Some func →
  reader_read (host w) = (Fulfilled {| value := Some s; done := false |}, h) →
  readData w =
    (Normal tt, host_step (EvCallback (cb_id func) s) h (host_step EvRead h w)).
Proof.
  intros Hf Hread.
  unfold readData, try_catch, bind, await, gets, invoke, return_, ret.
  rewrite Hread. cbn -[js_or]. rewrite Hf, js_or_empty. cbn.
  by destruct (cb_throws func s).
Qed.

(** Where the global scope declares [SerialPort] and the port has [forget]
    exactly when the prototype has it, as a port of the browser does, the
    method throws its "not supported" error exactly when [forget] is
    missing, and otherwise completes after one call of [forget()]. *)
Lemma revokeConnection_declared (w : World) (in_prototype : bool) :
  global_SerialPort (host w) = Bound in_prototype →
  port_has_forget (host w) = in_prototype →
  revokeConnection w =
    if in_prototype then (Normal tt, host_step EvForget (port_forget (host w)) w)
    else (Throw (Error "Cannot revoke access of this port serial. This function is not supported."),
          w).
Proof.
  intros Hg Hp. unfold revokeConnection, bind, gets, throw, call.
  rewrite Hg. destruct in_prototype; simpl; [|done]. by rewrite Hp.
Qed.

(** Where the prototype has [forget] and the port object does not, the call
    of line 105 throws. *)
Lemma revokeConnection_not_callable (w : World) :
  global_SerialPort (host w) = Bound true →
  port_has_forget (host w) = false →
  revokeConnection w = (Throw (TypeError "this.serialPort.forget is not a function"), w).
Proof.
  intros Hg Hp. unfold revokeConnection, bind, gets, throw.
  rewrite Hg. simpl. by rewrite Hp.
Qed.

(** C6.  Where the global scope does not declare [SerialPort], the test of
    line 101 itself throws: whether or not the port has [forget], the method
    ends with a [ReferenceError], which is not its "not supported" error,
    and [forget()] is not called. *)
Theorem revokeConnection_undeclared (w : World) :
  global_SerialPort (host w) = Undeclared →
  revokeConnection w = (Throw (ReferenceError "SerialPort"), w)
  ∧ count_event is_forget (trace (exec revokeConnection w)) =
      count_event is_forget (trace w).
Proof.
  intros Hg. unfold exec, revokeConnection, bind, gets, throw. by rewrite Hg.
Qed.

(** C9. A run of the read function never throws.  When its read fails, the
    error goes nowhere: the run completes normally, the only trace of it is
    the read itself, and the receive function is not called. *)
Theorem readData_swallows (w : World) :
  (readData w).1 = Normal tt
  ∧ (∀ e h, reader_read (host w) = (Rejected e, h) →
       readData w = (Normal tt, host_step EvRead h w) ∧
       callbacks (trace (exec readData w)) = callbacks (trace w)).
Proof.
  unfold exec, readData, try_catch, bind, await, gets, invoke, call_throwing, return_, ret.
  split.
  - destruct (reader_read (host w)) as [[r|e] h]; simpl; [|done].
    destruct (onResiveFunc w) as [func|]; simpl.
    + destruct (cb_throws func _); simpl; [done|].
      destruct (done r); simpl; [|done].
      by destruct (reader_releaseLock h) as [[[]|e] h'].
    + destruct (done r); simpl; [|done].
      by destruct (reader_releaseLock h) as [[[]|e] h'].
  - intros e h ->. simpl. split; [done|].
    unfold callbacks. by rewrite omap_app, app_nil_r.
Qed.

(** C10. [write(data)] is one awaited [writer.write(data)] and nothing else:
    the connection state is not read, so on a disconnected adapter the call
    is made all the same, and the only error it can end with is the
    writer's own rejection. *)
Theorem write_any_state (data : string) (w : World) :
  write data w =
    (match (writer_write data (host w)).1 with
     | Fulfilled _ => Normal tt
     | Rejected e => Throw e
     end,
     host_step (EvWrite data) (writer_write data (host w)).2 w)
  ∧ (isConnected w = false →
       trace (exec (write data) w) = (trace w ++ [EvWrite data])%list ∧
       ∀ e, (write data w).1 = Throw e → (writer_write data (host w)).1 = Rejected e).
Proof.
  unfold exec, write, await.
  destruct (writer_write data (host w)) as [[[]|e] h]; simpl.
  - split; [done|]. intros _. split; [done|]. intros e' [=].
  - split; [done|]. intros _. split; [done|]. by intros e' [= ->].
Qed.

(** C8, as the code has it.  The identifier is the prefix [webserial-]
    followed by the product id in hexadecimal, or by [unknown] when the
    port reports no product id. *)
Theorem deviceIndentifier_spec (w : World) :
  deviceIndentifier w =
    "webserial-" ++
    match port_usbProductId (host w) with
    | Some id => toString16 id
    | None => "unknown"
    end.
Proof.
  unfold deviceIndentifier.
  destruct (port_usbProductId (host w)) as [id|]; simpl fmap; [|done].
  by rewrite js_or_toString16.
Qed.

End Properties.

(** ** The static method *)

Lemma listDevices_bound (v : option Navigator) :
  listDevices (Bound v) =
    match v ≫= serial with
    | None => Normal []
    | Some s =>
        match getPorts s with
        | Fulfilled ports => Normal ports
        | Rejected e => Throw e
        end
    end.
Proof. by destruct v as [[[s|]]|]. Qed.

(** C7.  Where the global scope has no [navigator] at all, the guard
    [!navigator] itself throws: the method ends with a [ReferenceError], not
    with the empty list. *)
Theorem listDevices_undeclared :
  listDevices Undeclared = Throw (ReferenceError "navigator")
  ∧ listDevices Undeclared ≠ Normal [].
Proof. split; [reflexivity | discriminate]. Qed.

(** ** The reference host *)

#[export] Instance ref_contract : WebSerialContract RefPlatform.
Proof.
  split.
  - intros options h h'. simpl. unfold ref_open.
    destruct (ref_opened h) eqn:Ho; [done|]. by intros [= <-].
  - intros h h'. simpl. unfold ref_close.
    destruct (ref_opened h) eqn:Ho; [|done]. by intros [= <-].
  - done.
  - done.
Qed.

Example scenario_runs :
  serialPortOptions ref_adapter = defaults
  ∧ isConnected (exec connect ref_adapter) = true
  ∧ callbacks (trace scenario) = [(1, "OK" ++ CRLF)]
  ∧ (write ("AT" ++ CRLF) (exec readData
       (exec (setOnResiveFunc ref_callback) (exec connect ref_adapter)))).1 = Normal tt.
Proof. repeat (split; [reflexivity|]). reflexivity. Qed.

(** On this host, as with the streams of a browser, the [disconnect()] that
    ends the scenario stops at the promise of the inbound pipe, which has
    rejected because the reader was cancelled: the timer is cleared, the
    writer and the port are still open. *)
Example scenario_disconnect :
  (disconnect scenario_connected).1 = Throw (Thrown JsUndefined)
  ∧ isConnected scenario = true
  ∧ readInterval scenario = None
  ∧ trace scenario =
      [EvNewTextEncoderStream; EvGetWriter; EvNewTextDecoderStream; EvGetReader;
       EvOpen defaults;
       EvPipeTo TextEncoderReadable (Some (PortChannel 1));
       EvPipeTo (PortChannel 0) (Some TextDecoderWritable);
       EvSetInterval 10;
       EvRead; EvCallback 1 ("OK" ++ CRLF);
       EvWrite ("AT" ++ CRLF);
       EvClearInterval 2; EvCancel; EvAwait 1].
Proof. repeat (split; [reflexivity|]). reflexivity. Qed.

(** A function that throws is still called once, and the run still
    completes. *)
Example throwing_callback :
  let w := exec (setOnResiveFunc ref_callback') (exec connect ref_adapter) in
  (readData w).1 = Normal tt ∧ callbacks (trace (exec readData w)) = [(2, "OK" ++ CRLF)].
Proof. repeat (split; [reflexivity|]). reflexivity. Qed.

(** On the reference host, as many firings as there are chunks waiting
    deliver every chunk to the registered function once, in order. *)
Lemma poll_delivers (func : Callback) (chunks : list string)
    (rest : list (Settled ReadResult)) (w : World) :
  onResiveFunc w = Some func →
  ref_inbound (host w) = ((chunk <$> chunks) ++ rest)%list →
  callbacks (trace (exec (poll (length chunks)) w)) =
    (callbacks (trace w) ++ ((λ s, (cb_id func, s)) <$> chunks))%list
  ∧ ref_inbound (host (exec (poll (length chunks)) w)) = rest.
Proof.
  revert w. induction chunks as [|s chunks IH]; intros w Hf Hin.
  - simpl. by rewrite app_nil_r.
  - pose (h := ref_set_inbound ((chunk <$> chunks) ++ rest) (host w) : @Host RefPlatform).
    assert (Hread : reader_read (host w) =
                    (Fulfilled {| value := Some s; done := false |}, h)).
    { simpl. unfold ref_read. by rewrite Hin. }
    unfold exec. cbn [length poll]. unfold bind.
    rewrite (readData_chunk func s w h Hf Hread).
    destruct (IH (host_step (EvCallback (cb_id func) s) h (host_step EvRead h w)))
      as [IHc IHr]; [done|done|].
    unfold exec in IHc, IHr. split; [|exact IHr].
    rewrite IHc. simpl trace. rewrite !callbacks_app. simpl.
    by rewrite app_nil_r, <- app_assoc.
Qed.

Lemma isConnected_spec_witness :
  isConnected (exec connect ref_adapter) = true
  ∧ isConnected open_adapter = true
  ∧ isConnected (exec disconnect open_adapter) = false.
Proof.
  split; [|split; [reflexivity|]].
  - apply (proj1 (proj2 (isConnected_spec ref_adapter))). reflexivity.
  - apply (proj2 (proj2 (isConnected_spec open_adapter))).
    vm_compute. reflexivity.
Defined.

Lemma connect_noop_witness :
  let w1 := exec connect ref_adapter in
  connect w1 = (Normal tt, w1)
  ∧ count_event is_open (trace (exec connect w1)) = 1.
Proof.
  intros w1. apply (proj2 (connect_noop ref_adapter) w1). reflexivity.
Defined.

Lemma disconnect_noop_witness :
  disconnect ref_adapter = (Normal tt, ref_adapter).
Proof.
  apply (proj1 (disconnect_noop ref_adapter)). reflexivity.
Defined.

Lemma receive_callback_witness :
  callbacks (trace (exec readData
    (exec (setOnResiveFunc ref_callback) (exec connect ref_adapter)))) =
  [(1, "OK" ++ CRLF)].
Proof.
  apply (receive_callback ref_callback (exec connect ref_adapter)
           {| value := Some ("OK" ++ CRLF); done := false |}
           (ref_set_inbound [Rejected (DOMException "NetworkError")]
              (host (exec connect ref_adapter)))).
  reflexivity.
Defined.

Lemma revokeConnection_undeclared_witness :
  port_has_forget (host polyfill_adapter) = true
  ∧ revokeConnection polyfill_adapter = (Throw (ReferenceError "SerialPort"), polyfill_adapter)
  ∧ count_event is_forget (trace (exec revokeConnection polyfill_adapter)) = 0.
Proof.
  split; [reflexivity|].
  exact (revokeConnection_undeclared polyfill_adapter eq_refl).
Defined.

Lemma readData_swallows_witness :
  let w := exec readData (exec connect ref_adapter) in
  readData w = (Normal tt, host_step EvRead (ref_set_inbound [] (host w)) w).
Proof.
  intros w.
  exact (proj1 (proj2 (readData_swallows w) (DOMException "NetworkError")
                  (ref_set_inbound [] (host w)) eq_refl)).
Defined.

Lemma write_any_state_witness :
  isConnected ref_adapter = false
  ∧ trace (exec (write "AT") ref_adapter) = (trace ref_adapter ++ [EvWrite "AT"])%list.
Proof.
  split; [reflexivity|].
  exact (proj1 (proj2 (write_any_state "AT" ref_adapter) eq_refl)).
Defined.

(** C8, as the specification words it, fails: the identifier of a port with
    product id 0x2341 is [webserial-2341], not [2341]. *)
Lemma deviceIndentifier_not_bare :
  ¬ (∀ (P : Platform) (w : @World P),
       deviceIndentifier w =
         match port_usbProductId (host w) with
         | Some id => toString16 id
         | None => "unknown"
         end).
Proof.
  intros H. specialize (H RefPlatform ref_adapter). vm_compute in H. discriminate H.
Qed.

Example deviceIndentifier_ref : deviceIndentifier ref_adapter = "webserial-2341".
Proof. reflexivity. Qed.

Example deviceIndentifier_unknown :
  deviceIndentifier (constructor ref_port_no_forget None) = "webserial-unknown".
Proof. reflexivity. Qed.

(** * Further properties *)

(** ** The configuration *)

Lemma Object_assign_union (target source : gmap string JsValue) :
  Object_assign target source = source ∪ target.
Proof.
  apply map_eq. intros key. rewrite Object_assign_lookup, lookup_union.
  by destruct (source !! key), (target !! key).
Qed.

(** X1. The stored configuration is the union of the supplied options and
    the defaults, the supplied side winning.  Its keys are the four default
    keys and every supplied key; a key supplied with the value [undefined]
    is stored as [undefined], the default being lost. *)
Theorem constructor_options_union {P : Platform} (port : Host)
    (options : gmap string JsValue) :
  serialPortOptions (constructor port (Some options)) = options ∪ defaults
  ∧ dom (serialPortOptions (constructor port (Some options))) =
      dom options ∪ {[ "baudRate"; "dataBits"; "stopBits"; "parity" ]}
  ∧ (∀ key, options !! key = Some JsUndefined →
       serialPortOptions (constructor port (Some options)) !! key = Some JsUndefined).
Proof.
  assert (Hu : serialPortOptions (constructor port (Some options)) = options ∪ defaults)
    by apply Object_assign_union.
  split; [exact Hu|]. rewrite Hu. split.
  - rewrite dom_union_L. unfold defaults.
    rewrite !dom_insert_L, dom_singleton_L. set_solver.
  - intros key Hkey. apply lookup_union_Some_raw. by left.
Qed.

(** ** The identifier *)

Lemma toString16_inj (a b : N) : toString16 a = toString16 b → a = b.
Proof.
  intros H. apply (f_equal hex_value) in H. by rewrite !toString16_value in H.
Qed.

Lemma toString16_not_unknown (a : N) : toString16 a ≠ "unknown".
Proof.
  intros H. pose proof (f_equal hex_value H) as Hv.
  rewrite toString16_value in Hv. subst a. discriminate H.
Qed.

(** X2. Two adapters have the same identifier exactly when their ports
    report the same USB product id, a missing id being equal only to a
    missing id: different ids never collide, and no id yields
    [webserial-unknown]. *)
Theorem deviceIndentifier_distinguishes {P : Platform} (w1 w2 : World) :
  deviceIndentifier w1 = deviceIndentifier w2 ↔
  port_usbProductId (host w1) = port_usbProductId (host w2).
Proof.
  unfold deviceIndentifier. split; [|by intros ->].
  destruct (port_usbProductId (host w1)) as [a|], (port_usbProductId (host w2)) as [b|];
    simpl fmap; rewrite ?js_or_toString16; [| | |done].
  - intros [= H]. by apply toString16_inj in H as ->.
  - intros [= H]. by apply toString16_not_unknown in H.
  - intros [= H]. symmetry in H. by apply toString16_not_unknown in H.
Qed.

(** ** The life cycle, on any host *)

Section Lifecycle.
Context {P : Platform}.

Ltac run :=
  unfold await_nullable, return_ in *;
  unfold bind, ret, throw, gets, modify, call, call_throwing, await,
    try_catch, invoke, exec in *.

(** Case analysis on how the next call of the host operation [op] settles;
    the rejected case is closed when it contradicts the goal. *)
Ltac settle op :=
  match goal with
  | |- context [op ?h] =>
      let h' := fresh "h" in let e := fresh "e" in
      destruct (op h) as [[[]|e] h']; [cbn | cbn; try done]
  end.

Lemma count_event_cons (p : Event → bool) (e : Event) (l : list Event) :
  count_event p (e :: l) = (if p e then 1 else 0) + count_event p l.
Proof.
  unfold count_event. rewrite filter_cons. destruct (p e); by case_decide.
Qed.

Lemma count_event_snoc (p : Event → bool) (l : list Event) (e : Event) :
  count_event p (l ++ [e])%list = count_event p l + (if p e then 1 else 0).
Proof.
  rewrite count_event_app, count_event_cons. change (count_event p []) with 0. lia.
Qed.

(** X3. On a host that keeps the contract, [connect()] can fail in one way
    only: [open()] rejected.  The caller gets that very error, and besides
    the attempt to open nothing has happened: no pipe, no timer, no field
    written. *)
Theorem connect_failure `{!WebSerialContract P} (w w' : World) (e : JsError) :
  connect w = (Throw e, w') →
  isConnected w = false
  ∧ ∃ h, port_open (serialPortOptions w) (host w) = (Rejected e, h)
         ∧ w' = host_step (EvOpen (serialPortOptions w)) h w.
Proof.
  unfold connect. run.
  destruct (isConnected w) eqn:Hc; [done|].
  destruct (port_open (serialPortOptions w) (host w)) as [[[]|e0] h1] eqn:Hopen; cbn.
  - apply open_exposes_channels in Hopen as [Hr _].
    destruct (stream_pipeTo TextEncoderReadable (port_writable h1) h1) as [p h2] eqn:Hp.
    cbn.
    pose proof (pipeTo_keeps_channels TextEncoderReadable (port_writable h1) h1) as [Hk _].
    rewrite Hp in Hk. simpl in Hk. rewrite Hk.
    destruct (port_readable h1) as [source|]; [|done]. cbn.
    destruct (stream_pipeTo source (Some TextDecoderWritable) h2) as [q h3]. cbn.
    by destruct (timer_setInterval 10 h3) as [t h4].
  - intros [= -> <-]. split; [done|]. by exists h1.
Qed.


(** The fields and the log after a [disconnect()] that closed the port. *)
Lemma disconnect_closing (w w' : World) :
  isConnected w = true →
  disconnect w = (Normal tt, w') →
  readInterval w' = None ∧ readableStreamClosed w' = None ∧ writableStreamClosed w' = None
  ∧ trace w' =
      (trace w ++ nullable EvClearInterval (readInterval w)
         ++ [EvCancel] ++ nullable EvAwait (readableStreamClosed w)
         ++ [EvWriterClose] ++ nullable EvAwait (writableStreamClosed w)
         ++ [EvClose])%list.
Proof.
  intros Hc. unfold disconnect. run. rewrite Hc. cbn.
  destruct (readInterval w) as [t|] eqn:Ht; cbn;
  settle reader_cancel;
  (destruct (readableStreamClosed w) as [q|] eqn:Hq; cbn; [settle (promise_await q)|]);
  settle writer_close;
  (destruct (writableStreamClosed w) as [p|] eqn:Hp; cbn; [settle (promise_await p)|]);
  settle port_close;
  intros [= <-]; cbn; repeat split; try done;
  by rewrite <- ?app_assoc.
Qed.

(** X4. A [connect()] that had to open the port and completed has opened it
    with the stored configuration, piped the encoder into the port's
    [writable] and the port's [readable] into the decoder, and started one
    10 ms timer, in this order and with no other call.  [writableStreamClosed]
    holds the promise returned by the first [pipeTo], [readableStreamClosed]
    the promise returned by the second, [readInterval] the timer returned by
    [setInterval]; the receive function and the configuration are as
    before. *)
Theorem connect_world `{!WebSerialContract P} (w w' : World) :
  isConnected w = false →
  connect w = (Normal tt, w') →
  ∃ h1 wr source,
    port_open (serialPortOptions w) (host w) = (Fulfilled tt, h1)
    ∧ port_writable h1 = Some wr ∧ port_readable h1 = Some source
    ∧ let outbound := stream_pipeTo TextEncoderReadable (Some wr) h1 in
      let inbound := stream_pipeTo source (Some TextDecoderWritable) outbound.2 in
      let timer := timer_setInterval 10 inbound.2 in
      writableStreamClosed w' = Some outbound.1
      ∧ readableStreamClosed w' = Some inbound.1
      ∧ readInterval w' = Some timer.1
      ∧ host w' = timer.2
      ∧ port_writable (host w') = Some wr ∧ port_readable (host w') = Some source
      ∧ onResiveFunc w' = onResiveFunc w ∧ serialPortOptions w' = serialPortOptions w
      ∧ trace w' =
          (trace w ++
             [EvOpen (serialPortOptions w);
              EvPipeTo TextEncoderReadable (Some wr);
              EvPipeTo source (Some TextDecoderWritable);
              EvSetInterval 10])%list.
Proof.
  intros Hc. unfold connect. run. rewrite Hc.
  destruct (port_open (serialPortOptions w) (host w)) as [[[]|e0] h1] eqn:Hopen; cbn; [|done].
  pose proof (open_exposes_channels _ _ _ Hopen) as [Hr Hw].
  destruct (port_writable h1) as [wr|] eqn:Hwr; [|done].
  destruct (port_readable h1) as [source|] eqn:Hsrc; [|done].
  pose proof (pipeTo_keeps_channels TextEncoderReadable (Some wr) h1) as [Hk2 Hk2'].
  pose proof (pipeTo_keeps_channels source (Some TextDecoderWritable)
                (stream_pipeTo TextEncoderReadable (Some wr) h1).2) as [Hk3 Hk3'].
  pose proof (setInterval_keeps_channels 10
                (stream_pipeTo source (Some TextDecoderWritable)
                   (stream_pipeTo TextEncoderReadable (Some wr) h1).2).2) as [Hk4 Hk4'].
  destruct (stream_pipeTo TextEncoderReadable (Some wr) h1) as [p h2] eqn:Hp. cbn in *.
  rewrite Hk2, Hsrc. cbn.
  destruct (stream_pipeTo source (Some TextDecoderWritable) h2) as [q h3] eqn:Hq. cbn in *.
  destruct (timer_setInterval 10 h3) as [t h4] eqn:Ht. cbn in *.
  intros [= <-]. exists h1, wr, source.
  rewrite Hp. cbn. rewrite Hq. cbn. rewrite Ht. cbn.
  rewrite Hk4, Hk4', Hk3, Hk3', Hk2, Hk2', Hwr, Hsrc.
  repeat split; try done; by rewrite <- ?app_assoc.
Qed.


(** How a failed [disconnect()] is left: the timer field is [null], and
    [close()] either was the call that rejected or was not made. *)
Ltac failed_before_close :=
  intros [= <- <-]; cbn -[count_event]; repeat split; try done;
  left; rewrite ?count_event_snoc; cbn [is_close]; lia.

Ltac settle_or op tac :=
  match goal with
  | |- context [op ?h] =>
      let h' := fresh "h" in let e := fresh "e" in
      destruct (op h) as [[[]|e] h'] eqn:?; [cbn | cbn; tac]
  end.

(** X6. When [disconnect()] throws, the adapter was connected, the timer
    has been cleared and its field is [null], and the port has not been
    closed behind the caller's back: either [close()] is the call that
    rejected, with the caller's error, or [close()] was never called. *)
Theorem disconnect_failure (w w' : World) (e : JsError) :
  disconnect w = (Throw e, w') →
  isConnected w = true ∧ readInterval w' = None ∧ onResiveFunc w' = onResiveFunc w
  ∧ (count_event is_close (trace w') = count_event is_close (trace w)
     ∨ (readableStreamClosed w' = None ∧ writableStreamClosed w' = None
        ∧ last (trace w') = Some EvClose
        ∧ ∃ h, port_close h = (Rejected e, host w'))).
Proof.
  unfold disconnect. run.
  destruct (isConnected w) eqn:Hc; cbn; [|done].
  destruct (readInterval w) as [t|] eqn:Ht; cbn;
  settle_or reader_cancel failed_before_close;
  (destruct (readableStreamClosed w) as [q|] eqn:Hq; cbn;
   [settle_or (promise_await q) failed_before_close|]);
  settle_or writer_close failed_before_close;
  (destruct (writableStreamClosed w) as [p|] eqn:Hp; cbn;
   [settle_or (promise_await p) failed_before_close|]);
  (settle_or port_close idtac; [done|]);
  intros [= <- <-]; cbn -[count_event]; repeat split; try done;
  right; repeat split; try done; try apply last_snoc; eauto.
Qed.


(** X8. On a connected adapter that has an inbound pipe stored, when
    [reader.cancel()] fulfils and the promise of that pipe then rejects,
    which the pipe into a decoder does once its reader is cancelled,
    [disconnect()] throws that rejection after the clearing of the timer (if
    one is stored), the cancellation and the await, and makes no further
    call: the writer is not closed and the port is not closed.  The timer
    field is [null]; both pipe promises stay stored. *)
Theorem disconnect_inbound_rejected (w : World) (q : Promise) (e : JsError) (h1 h2 : Host) :
  isConnected w = true →
  readableStreamClosed w = Some q →
  reader_cancel (cleared_host w) = (Fulfilled tt, h1) →
  promise_await q h1 = (Rejected e, h2) →
  (disconnect w).1 = Throw e
  ∧ trace (exec disconnect w) =
      (trace w ++ nullable EvClearInterval (readInterval w) ++ [EvCancel; EvAwait q])%list
  ∧ host (exec disconnect w) = h2
  ∧ readInterval (exec disconnect w) = None
  ∧ readableStreamClosed (exec disconnect w) = Some q
  ∧ writableStreamClosed (exec disconnect w) = writableStreamClosed w
  ∧ onResiveFunc (exec disconnect w) = onResiveFunc w.
Proof.
  intros Hc Hq Hcancel Hawait. unfold cleared_host in Hcancel.
  unfold disconnect. run. rewrite Hc. cbn.
  destruct (readInterval w) as [t|] eqn:Ht; cbn;
    rewrite Hcancel; cbn; rewrite Hq; cbn; rewrite Hawait; cbn;
    repeat split; try done; by rewrite <- ?app_assoc.
Qed.

(** X9. An adapter built on a port that is already open counts as
    connected: [connect()] is void, so no pipe is set up and no timer is
    started, and a completed [disconnect()] has nothing to clear or await:
    it cancels the reader, closes the writer and closes the port. *)
Theorem adapter_on_open_port (port : Host) (options : option (gmap string JsValue)) :
  not_null (port_readable port) = true →
  not_null (port_writable port) = true →
  connect (constructor port options) = (Normal tt, constructor port options)
  ∧ readInterval (constructor port options) = None
  ∧ ∀ w', disconnect (constructor port options) = (Normal tt, w') →
      trace w' = (trace (constructor port options) ++ [EvCancel; EvWriterClose; EvClose])%list.
Proof.
  intros Hr Hw.
  assert (Hc : isConnected (constructor port options) = true).
  { unfold isConnected. simpl. by rewrite Hr, Hw. }
  split; [by apply connect_connected|]. split; [done|].
  intros w' H. destruct (disconnect_closing _ _ Hc H) as (_ & _ & _ & Htr).
  by rewrite Htr.
Qed.

End Lifecycle.

(** ** The read loop, on any host *)

Section ReadLoop.
Context {P : Platform}.

Ltac run :=
  unfold await_nullable, return_ in *;
  unfold bind, ret, throw, gets, modify, call, call_throwing, await,
    try_catch, invoke, exec in *.

(** X10. While no receive function is registered, a run of the read
    function still takes the next chunk from the decoder and drops it: the
    read is the only call made, the host has moved past the chunk, and no
    function is called. *)
Theorem readData_without_callback (w : World) (r : ReadResult) (h : Host) :
  onResiveFunc w = None →
  reader_read (host w) = (Fulfilled r, h) →
  callbacks (trace (exec readData w)) = callbacks (trace w)
  ∧ (done r = false → readData w = (Normal tt, host_step EvRead h w)).
Proof.
  intros Hf Hread. unfold readData. run. rewrite Hread. cbn. rewrite Hf. cbn.
  destruct (done r); cbn.
  - split; [|done].
    destruct (reader_releaseLock h) as [[[]|e] h']; cbn;
      unfold callbacks; by rewrite !omap_app, !app_nil_r.
  - split; [|done]. unfold callbacks. by rewrite omap_app, app_nil_r.
Qed.

(** X11. A run of the read function releases the reader's lock exactly when
    its read reports the end of the stream and the receive function, if one
    is registered, returns: once then, never otherwise.  A receive function
    that throws on the final empty string leaves the lock held. *)
Theorem readData_releaseLock (w : World) (r : ReadResult) (h : Host) :
  reader_read (host w) = (Fulfilled r, h) →
  count_event is_releaseLock (trace (exec readData w)) =
    count_event is_releaseLock (trace w) +
    (if done r && negb (callback_throws w r) then 1 else 0).
Proof.
  intros Hread. unfold readData, callback_throws. run. rewrite Hread. cbn -[count_event js_or].
  destruct (onResiveFunc w) as [func|]; cbn -[count_event js_or].
  - destruct (cb_throws func (js_or (value r) "")); cbn -[count_event js_or].
    + rewrite andb_false_r, !count_event_snoc. cbn [is_releaseLock]. lia.
    + rewrite andb_true_r. destruct (done r); cbn -[count_event js_or].
      * destruct (reader_releaseLock h) as [[[]|e] h']; cbn -[count_event js_or];
          rewrite !count_event_snoc; cbn [is_releaseLock]; lia.
      * rewrite !count_event_snoc. cbn [is_releaseLock]. lia.
  - rewrite andb_true_r. destruct (done r); cbn -[count_event js_or].
    + destruct (reader_releaseLock h) as [[[]|e] h']; cbn -[count_event js_or];
        rewrite !count_event_snoc; cbn [is_releaseLock]; lia.
    + rewrite !count_event_snoc. cbn [is_releaseLock]. lia.
Qed.

(** What one run keeps. *)
Lemma readData_frame (w : World) :
  (readData w).1 = Normal tt
  ∧ serialPortOptions (exec readData w) = serialPortOptions w
  ∧ writableStreamClosed (exec readData w) = writableStreamClosed w
  ∧ readableStreamClosed (exec readData w) = readableStreamClosed w
  ∧ readInterval (exec readData w) = readInterval w
  ∧ onResiveFunc (exec readData w) = onResiveFunc w
  ∧ count_event is_read (trace (exec readData w)) = S (count_event is_read (trace w)).
Proof.
  unfold readData. run.
  destruct (reader_read (host w)) as [[r|e] h]; cbn -[count_event].
  2:{ repeat split; try done. rewrite count_event_snoc. cbn [is_read]. lia. }
  destruct (onResiveFunc w) as [func|] eqn:Hf; cbn -[count_event].
  - destruct (cb_throws func _); cbn -[count_event].
    { repeat split; try done. rewrite !count_event_snoc. cbn [is_read]. lia. }
    destruct (done r); cbn -[count_event].
    + destruct (reader_releaseLock h) as [[[]|e] h']; cbn -[count_event];
        repeat split; try done; rewrite !count_event_snoc; cbn [is_read]; lia.
    + repeat split; try done. rewrite !count_event_snoc. cbn [is_read]. lia.
  - destruct (done r); cbn -[count_event].
    + destruct (reader_releaseLock h) as [[[]|e] h']; cbn -[count_event];
        repeat split; try done; rewrite !count_event_snoc; cbn [is_read]; lia.
    + repeat split; try done. rewrite !count_event_snoc. cbn [is_read]. lia.
Qed.

(** X12. However many times the timer fires, whatever the reads and
    [releaseLock] do, and whether the receive function returns or throws,
    the loop never throws and issues exactly one read per firing.  The read
    function itself writes no field: with a receive function that does not
    call the adapter's methods while it runs, every field of the adapter is
    after the firings as it was before. *)
Theorem poll_invariant (n : nat) (w : World) :
  (poll n w).1 = Normal tt
  ∧ serialPortOptions (exec (poll n) w) = serialPortOptions w
  ∧ writableStreamClosed (exec (poll n) w) = writableStreamClosed w
  ∧ readableStreamClosed (exec (poll n) w) = readableStreamClosed w
  ∧ readInterval (exec (poll n) w) = readInterval w
  ∧ onResiveFunc (exec (poll n) w) = onResiveFunc w
  ∧ count_event is_read (trace (exec (poll n) w)) = count_event is_read (trace w) + n.
Proof.
  revert w. induction n as [|n IH]; intros w.
  - cbn -[count_event]. repeat split; try done; lia.
  - destruct (readData_frame w) as (Hn & Ho & Hw & Hr & Ht & Hf & Hc).
    unfold exec in *. cbn [poll]. unfold bind.
    destruct (readData w) as [c w1]. simpl in Hn, Ho, Hw, Hr, Ht, Hf, Hc. subst c.
    destruct (IH w1) as (IHn & IHo & IHw & IHr & IHt & IHf & IHc).
    rewrite IHo, IHw, IHr, IHt, IHf, IHc, Ho, Hw, Hr, Ht, Hf, Hc.
    repeat split; try done; lia.
Qed.

(** X15. When the decoder hands out a sequence of chunks to as many
    firings of the timer, the function registered when the firings begin,
    provided it does not register another one while it runs, is called once
    per chunk, with the chunks' texts in the order of arrival, whether or
    not it throws on some of them; nothing is skipped and nothing is
    delivered twice. *)
Theorem poll_delivers_in_order (func : Callback) (chunks : list string)
    (w : World) (h' : Host) :
  onResiveFunc w = Some func →
  serves chunks (host w) h' →
  callbacks (trace (exec (poll (length chunks)) w)) =
    (callbacks (trace w) ++ ((λ s, (cb_id func, s)) <$> chunks))%list
  ∧ host (exec (poll (length chunks)) w) = h'.
Proof.
  revert w. induction chunks as [|s chunks IH]; intros w Hf Hs.
  - simpl in *. by rewrite app_nil_r.
  - destruct Hs as (h1 & Hread & Hs).
    unfold exec. cbn [length poll]. unfold bind.
    rewrite (readData_chunk func s w h1 Hf Hread).
    destruct (IH (host_step (EvCallback (cb_id func) s) h1 (host_step EvRead h1 w)))
      as [IHc IHh]; [done|done|].
    unfold exec in IHc, IHh. split; [|exact IHh].
    rewrite IHc. simpl trace. rewrite !callbacks_app. simpl.
    by rewrite app_nil_r, <- app_assoc.
Qed.

End ReadLoop.

(** ** Histories *)

Section Histories.
Context {P : Platform}.

Ltac run :=
  unfold await_nullable, return_ in *;
  unfold bind, ret, throw, gets, modify, call, call_throwing, await,
    try_catch, invoke, exec in *.

Ltac count :=
  unfold timer_balance in *; cbn -[count_event not_null] in *;
  repeat match goal with E : readInterval _ = _ |- _ => rewrite ?E; clear E end;
  rewrite ?count_event_snoc; cbn [is_clearInterval is_setInterval not_null] in *;
  repeat match goal with
         | H : context [not_null (readInterval ?x)] |- _ => destruct (readInterval x)
         | |- context [not_null (readInterval ?x)] => destruct (readInterval x)
         end;
  cbn [not_null] in *; lia.

Ltac host_call op :=
  match goal with
  | |- context [op ?h] =>
      let h' := fresh "h" in let r := fresh "r" in
      destruct (op h) as [r h']; cbn -[count_event]
  end.

Ltac host_await op :=
  match goal with
  | |- context [op ?h] =>
      let h' := fresh "h" in let e := fresh "e" in
      destruct (op h) as [[[]|e] h']; cbn -[count_event]
  end.

Lemma connect_keeps (w : World) :
  serialPortOptions (exec connect w) = serialPortOptions w
  ∧ onResiveFunc (exec connect w) = onResiveFunc w
  ∧ (timer_balance w → timer_balance (exec connect w)).
Proof.
  unfold connect. run.
  destruct (isConnected w); cbn -[count_event]; [done|].
  host_await (port_open (serialPortOptions w)); [|repeat split; try done; intros; count].
  host_call (stream_pipeTo TextEncoderReadable (port_writable h)).
  destruct (port_readable h0) as [source|]; cbn -[count_event].
  - host_call (stream_pipeTo source (Some TextDecoderWritable)).
    host_call (timer_setInterval 10).
    repeat split; try done; intros Hb; count.
  - repeat split; try done; intros; count.
Qed.

Lemma disconnect_keeps (w : World) :
  serialPortOptions (exec disconnect w) = serialPortOptions w
  ∧ onResiveFunc (exec disconnect w) = onResiveFunc w
  ∧ (timer_balance w → timer_balance (exec disconnect w)).
Proof.
  unfold disconnect, timer_balance. run.
  destruct (isConnected w); cbn -[count_event]; [|done].
  destruct (readInterval w) as [t|] eqn:Ht; cbn -[count_event];
  (host_await reader_cancel; [|repeat split; try done; intros; count]);
  (destruct (readableStreamClosed w) as [q|]; cbn -[count_event];
   [host_await (promise_await q); [|repeat split; try done; intros; count]|]);
  (host_await writer_close; [|repeat split; try done; intros; count]);
  (destruct (writableStreamClosed w) as [p|]; cbn -[count_event];
   [host_await (promise_await p); [|repeat split; try done; intros; count]|]);
  host_await port_close; repeat split; try done; intros; count.
Qed.

Lemma step_keeps (s : Step) (w : World) :
  serialPortOptions (step s w) = serialPortOptions w
  ∧ onResiveFunc (step s w) =
      match s with DoSetOnResiveFunc g => Some g | _ => onResiveFunc w end
  ∧ (timer_balance w → timer_balance (step s w)).
Proof.
  destruct s as [| |data| |func| |h]; cbn [step].
  - apply connect_keeps.
  - apply disconnect_keeps.
  - unfold write. run. host_await (writer_write data); repeat split; try done; intros; count.
  - unfold revokeConnection. run.
    destruct (global_SerialPort (host w)) as [|[|]]; cbn -[count_event];
      try destruct (port_has_forget (host w)); cbn -[count_event];
      repeat split; try done; intros; count.
  - done.
  - destruct (readData_frame w) as (_ & Ho & _ & _ & Ht & Hf & _).
    split; [done|]. split; [done|].
    unfold timer_balance. rewrite Ht.
    assert (Hcount : ∀ p, (p = is_clearInterval ∨ p = is_setInterval) →
              count_event p (trace (exec readData w)) = count_event p (trace w)).
    { intros p Hp. unfold readData. run.
      destruct (reader_read (host w)) as [[r|e] h]; cbn -[count_event].
      2:{ rewrite count_event_snoc. destruct Hp as [-> | ->]; simpl; lia. }
      destruct (onResiveFunc w) as [func|]; cbn -[count_event];
        [destruct (cb_throws func _); cbn -[count_event]|];
        try (destruct (done r); cbn -[count_event];
             [destruct (reader_releaseLock h) as [[[]|e] h']; cbn -[count_event]|]);
        rewrite !count_event_snoc; destruct Hp as [-> | ->]; simpl; lia. }
    rewrite !Hcount by auto. done.
  - done.
Qed.

Lemma session_keeps (steps : list Step) (w : World) :
  serialPortOptions (session steps w) = serialPortOptions w
  ∧ onResiveFunc (session steps w) = last_registered steps (onResiveFunc w)
  ∧ (timer_balance w → timer_balance (session steps w)).
Proof.
  revert w. induction steps as [|s steps IH]; intros w; [done|].
  unfold session, last_registered in *. cbn [fold_left].
  destruct (step_keeps s w) as (Ho & Hf & Hb).
  destruct (IH (step s w)) as (IHo & IHf & IHb).
  rewrite IHo, IHf, Ho, Hf. repeat split; try done; try (by destruct s); auto.
Qed.

(** X13. Through any history of an adapter (method calls that complete or
    throw, firings of the timer, changes of the port on its own) the
    configuration stays the one the constructor stored, and the registered
    receive function is the one of the last [setOnResiveFunc], or none if
    there was no such call. *)
Theorem session_configuration (port : Host) (options : option (gmap string JsValue))
    (steps : list Step) :
  serialPortOptions (session steps (constructor port options)) =
    Object_assign defaults (default ∅ options)
  ∧ onResiveFunc (session steps (constructor port options)) = last_registered steps None.
Proof.
  destruct (session_keeps steps (constructor port options)) as (Ho & Hf & _).
  by rewrite Ho, Hf.
Qed.

(** X14. Through any such history the adapter never clears more timers than
    it has started, and while a timer is stored in [readInterval] at least
    one started timer has not been cleared. *)
Theorem session_timers (port : Host) (options : option (gmap string JsValue))
    (steps : list Step) :
  (count_event is_clearInterval (trace (session steps (constructor port options)))
     + (if not_null (readInterval (session steps (constructor port options))) then 1 else 0)
   ≤ count_event is_setInterval (trace (session steps (constructor port options))))%nat.
Proof.
  destruct (session_keeps steps (constructor port options)) as (_ & _ & Hb).
  apply Hb. unfold timer_balance. simpl. lia.
Qed.

End Histories.

(** ** The further properties on the reference hosts *)

Lemma faulty_contract (open_fails cancel_fails : bool) :
  WebSerialContract (FaultyPlatform open_fails cancel_fails).
Proof.
  split.
  - intros options h h'. simpl. destruct open_fails; [done|]. unfold ref_open.
    destruct (ref_opened h) eqn:Ho; [done|]. by intros [= <-].
  - intros h h'. simpl. unfold ref_close.
    destruct (ref_opened h) eqn:Ho; [|done]. by intros [= <-].
  - done.
  - done.
Qed.

Lemma connect_failure_witness :
  isConnected busy_adapter = false
  ∧ ∃ h, @port_open (FaultyPlatform true false)
           (serialPortOptions busy_adapter) (host busy_adapter) =
         (Rejected (DOMException "NetworkError"), h)
       ∧ exec connect busy_adapter =
         host_step (EvOpen (serialPortOptions busy_adapter)) h busy_adapter.
Proof.
  apply (@connect_failure (FaultyPlatform true false) (faulty_contract true false)
           busy_adapter (exec connect busy_adapter) (DOMException "NetworkError")).
  reflexivity.
Defined.

Lemma connect_world_witness :
  writableStreamClosed (exec connect ref_adapter) = Some 0
  ∧ readableStreamClosed (exec connect ref_adapter) = Some 1
  ∧ readInterval (exec connect ref_adapter) = Some 2
  ∧ trace (exec connect ref_adapter) =
      (trace ref_adapter ++
         [EvOpen defaults;
          EvPipeTo TextEncoderReadable (Some (PortChannel 1));
          EvPipeTo (PortChannel 0) (Some TextDecoderWritable);
          EvSetInterval 10])%list.
Proof.
  destruct (connect_world ref_adapter (exec connect ref_adapter) eq_refl eq_refl)
    as (h1 & wr & source & Hopen & Hwr & Hsrc & Hp & Hq & Ht & _ & _ & _ & _ & _ & Htr).
  injection Hopen as <-. injection Hwr as <-. injection Hsrc as <-.
  split; [exact Hp|]. split; [exact Hq|]. split; [exact Ht|]. exact Htr.
Defined.


Lemma disconnect_failure_witness :
  isConnected stuck_adapter = true
  ∧ readInterval (exec disconnect stuck_adapter) = None
  ∧ isConnected (exec disconnect stuck_adapter) = true.
Proof.
  destruct (@disconnect_failure (FaultyPlatform false true) stuck_adapter
              (exec disconnect stuck_adapter) (TypeError "Releasing Default reader"))
    as (Hc & Ht & _).
  - vm_compute. reflexivity.
  - split; [exact Hc|]. split; [exact Ht|]. reflexivity.
Defined.


Lemma disconnect_inbound_rejected_witness :
  let w := exec connect ref_adapter in
  (disconnect w).1 = Throw (Thrown JsUndefined)
  ∧ trace (exec disconnect w) = (trace w ++ [EvClearInterval 2; EvCancel; EvAwait 1])%list
  ∧ isConnected (exec disconnect w) = true.
Proof.
  intros w.
  destruct (disconnect_inbound_rejected w 1 (Thrown JsUndefined)
              (ref_cancel (host w)).2 (ref_cancel (host w)).2
              eq_refl eq_refl eq_refl eq_refl) as (He & Htr & Hh & _).
  split; [exact He|]. split; [exact Htr|].
  unfold isConnected. rewrite Hh. reflexivity.
Defined.

Lemma adapter_on_open_port_witness :
  connect (constructor ref_port_open None) = (Normal tt, constructor ref_port_open None)
  ∧ trace (exec disconnect (constructor ref_port_open None)) =
      (trace (constructor ref_port_open None) ++ [EvCancel; EvWriterClose; EvClose])%list.
Proof.
  destruct (adapter_on_open_port (P := RefPlatform) ref_port_open None eq_refl eq_refl)
    as (Hc & _ & Hd).
  split; [exact Hc|]. apply Hd. vm_compute. reflexivity.
Defined.

Lemma readData_without_callback_witness :
  callbacks (trace (exec readData (exec connect ref_adapter))) = []
  ∧ ref_inbound (host (exec readData (exec connect ref_adapter))) =
      [Rejected (DOMException "NetworkError")].
Proof.
  destruct (readData_without_callback (exec connect ref_adapter)
              {| value := Some ("OK" ++ CRLF); done := false |}
              (ref_set_inbound [Rejected (DOMException "NetworkError")]
                 (host (exec connect ref_adapter))) eq_refl eq_refl) as [Hc Hw].
  split; [exact Hc|]. unfold exec at 1. by rewrite (Hw eq_refl).
Defined.

Lemma readData_releaseLock_witness :
  let w := exec (setOnResiveFunc ref_callback') (constructor ref_port_no_forget None) in
  count_event is_releaseLock (trace (exec readData w)) = 0
  ∧ count_event is_releaseLock
      (trace (exec readData (constructor ref_port_no_forget None))) = 1.
Proof.
  intros w. split.
  - exact (readData_releaseLock w {| value := None; done := true |} (host w) eq_refl).
  - exact (readData_releaseLock (constructor ref_port_no_forget None)
             {| value := None; done := true |} ref_port_no_forget eq_refl).
Defined.

Lemma poll_delivers_in_order_witness :
  callbacks (trace (exec (poll 3) three_adapter)) = [(3, "A"); (3, "B"); (3, "C")]
  ∧ cb_throws ref_callback_b "B" = Some (Error "consumer").
Proof.
  split; [|reflexivity].
  apply (poll_delivers_in_order ref_callback_b ["A"; "B"; "C"] three_adapter
           (ref_set_inbound [] (host three_adapter)) eq_refl).
  repeat (eexists; split; [reflexivity|]). reflexivity.
Defined.

(** A history on the reference host: connect, lose the port, connect again,
    register twice, let the timer fire, disconnect. *)
Example session_ref :
  let steps :=
    [DoConnect; PortChanges (ref_set_opened false ref_port); DoDisconnect; DoConnect;
     DoSetOnResiveFunc ref_callback'; DoSetOnResiveFunc ref_callback; TimerFires;
     DoWrite "AT"; DoDisconnect] in
  let w := session steps ref_adapter in
  onResiveFunc w = Some ref_callback
  ∧ callbacks (trace w) = [(1, "OK" ++ CRLF)]
  ∧ count_event is_setInterval (trace w) = 2
  ∧ count_event is_clearInterval (trace w) = 1
  ∧ readInterval w = None.
Proof. vm_compute. repeat split. Qed.
